(** * Ticket tracker and counter screens: model and verified properties

    The repository holds one React Native screen with a ticket list
    (the [App] component with its [tickets] state and the handlers
    [openModal], [saveTicket], [deleteTicket], [updateRating]) and a
    counter screen ([Counter], one [count] state with three buttons).

    The handlers are embedded as functions on explicit state: every
    [setX(v)] becomes a field of the next state, every
    [setTickets(prev => e)] becomes the function [prev => e] on the list
    of tickets.  An event handler runs against the state of the last
    render, and the next event sees the state it produced. *)

From Stdlib Require Import ZArith DecimalString DecimalZ.
From stdpp Require Import base numbers list strings.

Local Open Scope string_scope.
Local Open Scope list_scope.
Local Open Scope Z_scope.

(** ** Data model *)

(** [status: 'Created' | 'Under Assistance' | 'Completed'] *)
Inductive Status : Type := Created | UnderAssistance | Completed.

#[global] Instance Status_eq_dec : EqDecision Status.
Proof. solve_decision. Defined.

(** [interface Ticket]; the optional [rating?: number] is [None] when the
    property is missing or [undefined]. *)
Module Ticket.
Record t : Type := mk {
  id : string;
  title : string;
  description : string;
  status : Status;
  rating : option Z
}.
End Ticket.
Abbreviation Ticket := Ticket.t.

#[global] Instance Ticket_eq_dec : EqDecision Ticket.
Proof. solve_decision. Defined.

(** The initial value of [useState<Ticket[]>]. *)
Definition seed : list Ticket :=
  [ Ticket.mk "1" "Login Issue" "User cannot log in with email." Created None;
    Ticket.mk "2" "Payment Bug" "Stripe integration failing on iOS."
      UnderAssistance None;
    Ticket.mk "3" "UI Feedback" "Improve dashboard layout." Completed (Some 4) ].

(** ** The four updates of the ticket list *)

(** [Date.now().toString()]: the clock reading, an integer number of
    milliseconds, printed in decimal (a minus sign and no leading zero,
    which is how a [number] of that size prints). *)
Definition toString (n : Z) : string := NilZero.string_of_int (Z.to_int n).

(** [const newTicket: Ticket = { id: Date.now().toString(), title,
    description, status }]; [now] is the value [Date.now()] returned. *)
Definition newTicket (now : Z) (title description : string) (status : Status)
  : Ticket :=
  Ticket.mk (toString now) title description status None.

(** [(prev) => [...prev, newTicket]] *)
Definition addTicket (now : Z) (title description : string) (status : Status)
    (prev : list Ticket) : list Ticket :=
  prev ++ [newTicket now title description status].

(** [{ ...t, title, description, status,
       rating: status === 'Completed' ? t.rating : undefined }] *)
Definition edited (title description : string) (status : Status) (t : Ticket)
  : Ticket :=
  Ticket.mk (Ticket.id t) title description status
    (if decide (status = Completed) then Ticket.rating t else None).

(** [(prev) => prev.map((t) => t.id === currentId ? { ... } : t)] *)
Definition editTicket (currentId title description : string) (status : Status)
    (prev : list Ticket) : list Ticket :=
  (fun t => if decide (Ticket.id t = currentId)
            then edited title description status t else t) <$> prev.

(** [(prev) => prev.filter((t) => t.id !== id)] *)
Definition removeTicket (id : string) (prev : list Ticket) : list Ticket :=
  filter (fun t => Ticket.id t ≠ id) prev.

(** [{ ...t, rating: newRating }] *)
Definition rated (newRating : Z) (t : Ticket) : Ticket :=
  Ticket.mk (Ticket.id t) (Ticket.title t) (Ticket.description t)
    (Ticket.status t) (Some newRating).

(** [(prev) => prev.map((t) => (t.id === id ? { ...t, rating: newRating } : t))] *)
Definition rateTicket (id : string) (newRating : Z) (prev : list Ticket)
  : list Ticket :=
  (fun t => if decide (Ticket.id t = id) then rated newRating t else t) <$> prev.

(** ** Sequences of store operations *)

Inductive Op : Type :=
| Create (now : Z) (title description : string) (status : Status)
| Update (id title description : string) (status : Status)
| Delete (id : string)
| Rate (id : string) (value : Z).

Definition apply (o : Op) (ts : list Ticket) : list Ticket :=
  match o with
  | Create now ti d s => addTicket now ti d s ts
  | Update i ti d s => editTicket i ti d s ts
  | Delete i => removeTicket i ts
  | Rate i v => rateTicket i v ts
  end.

(** The store after the whole sequence. *)
Definition run (ops : list Op) (ts : list Ticket) : list Ticket :=
  foldl (fun acc o => apply o acc) ts ops.

(** The stores seen after each operation, in order. *)
Fixpoint trace (ops : list Op) (ts : list Ticket) : list (list Ticket) :=
  match ops with
  | [] => []
  | o :: ops' => apply o ts :: trace ops' (apply o ts)
  end.

(** [rating.isSome() ⇒ status == Completed], as a decidable predicate. *)
Definition rating_ok (t : Ticket) : Prop :=
  is_Some (Ticket.rating t) → Ticket.status t = Completed.

#[global] Instance rating_ok_dec t : Decision (rating_ok t).
Proof. unfold rating_ok. apply _. Defined.

Definition invariant (ts : list Ticket) : Prop := Forall rating_ok ts.

#[global] Instance invariant_dec ts : Decision (invariant ts).
Proof. unfold invariant. apply _. Defined.

(** The rating control of a row exists only under
    [ticket.status === 'Completed']; a [Rate] is exposed in a store when
    every ticket it reaches is in that status. *)
Definition exposed (o : Op) (ts : list Ticket) : Prop :=
  match o with
  | Rate i _ => Forall (fun t => Ticket.id t = i → Ticket.status t = Completed) ts
  | _ => True
  end.

#[global] Instance exposed_dec o ts : Decision (exposed o ts).
Proof. destruct o; simpl; apply _. Defined.

(** Every operation of the sequence is exposed in the store it runs on. *)
Fixpoint admissible (ops : list Op) (ts : list Ticket) : Prop :=
  match ops with
  | [] => True
  | o :: ops' => exposed o ts ∧ admissible ops' (apply o ts)
  end.

#[global] Instance admissible_dec ops ts : Decision (admissible ops ts).
Proof. revert ts. induction ops; simpl; intros; apply _. Defined.

(** The clock readings the creations of a sequence saw. *)
Definition clock (o : Op) : list Z :=
  match o with Create now _ _ _ => [now] | _ => [] end.

Definition clocks (ops : list Op) : list Z := ops ≫= clock.

Definition ids (ts : list Ticket) : list string := Ticket.id <$> ts.


(** ** The [App] component *)

Module App.

(** The seven [useState] cells of [App]. *)
Record State : Type := mk {
  tickets : list Ticket;
  modalVisible : bool;
  isEditing : bool;
  currentId : option string;
  title : string;
  description : string;
  status : Status
}.

Definition initial : State := mk seed false false None "" "" Created.

(** A [string | null] used as a condition: [null] and the empty string
    are falsy. *)
Definition truthy (o : option string) : bool :=
  match o with
  | Some s => negb (String.eqb s "")
  | None => false
  end.

(** [openModal(ticket?)] *)
Definition openModal (ticket : option Ticket) (a : State) : State :=
  match ticket with
  | Some t =>
      mk (tickets a) true true (Some (Ticket.id t)) (Ticket.title t)
        (Ticket.description t) (Ticket.status t)
  | None => mk (tickets a) true false None "" "" Created
  end.

(** [saveTicket()]; [now] is what [Date.now()] returns when it is read. *)
Definition saveTicket (now : Z) (a : State) : State :=
  let tickets' :=
    match currentId a with
    | Some i =>
        if isEditing a && truthy (currentId a)
        then editTicket i (title a) (description a) (status a) (tickets a)
        else addTicket now (title a) (description a) (status a) (tickets a)
    | None => addTicket now (title a) (description a) (status a) (tickets a)
    end in
  mk tickets' false (isEditing a) (currentId a) (title a) (description a)
    (status a).

(** [deleteTicket(id)] *)
Definition deleteTicket (id : string) (a : State) : State :=
  mk (removeTicket id (tickets a)) (modalVisible a) (isEditing a)
    (currentId a) (title a) (description a) (status a).

(** [updateRating(id, newRating)] *)
Definition updateRating (id : string) (newRating : Z) (a : State) : State :=
  mk (rateTicket id newRating (tickets a)) (modalVisible a) (isEditing a)
    (currentId a) (title a) (description a) (status a).

(** The Cancel button: [() => setModalVisible(false)]. *)
Definition cancel (a : State) : State :=
  mk (tickets a) false (isEditing a) (currentId a) (title a) (description a)
    (status a).

Definition setTitle (s : string) (a : State) : State :=
  mk (tickets a) (modalVisible a) (isEditing a) (currentId a) s
    (description a) (status a).

Definition setDescription (s : string) (a : State) : State :=
  mk (tickets a) (modalVisible a) (isEditing a) (currentId a) (title a) s
    (status a).

Definition setStatus (s : Status) (a : State) : State :=
  mk (tickets a) (modalVisible a) (isEditing a) (currentId a) (title a)
    (description a) s.

(** The stars the [Rating] component draws: [[1, 2, 3, 4, 5].map(...)],
    each with [onPress={() => onChange(star)}]. *)
Definition stars : list Z := [1; 2; 3; 4; 5].

(** What the user can touch on the rendered screen. *)
Inductive Press : Type :=
| PressEdit (row : nat)
| PressDelete (row : nat)
| PressStar (row : nat) (star : nat)
| PressAdd
| ChangeTitle (text : string)
| ChangeDescription (text : string)
| PickStatus (value : Status)
| PressSave
| PressCancel.

(** The handler call a touch is bound to. *)
Inductive Call : Type :=
| CallOpenModal (ticket : option Ticket)
| CallDeleteTicket (id : string)
| CallUpdateRating (id : string) (newRating : Z)
| CallSetTitle (text : string)
| CallSetDescription (text : string)
| CallSetStatus (value : Status)
| CallSaveTicket
| CallCancel.

(** The bindings of the JSX tree: the [FlatList] draws one [TicketItem]
    per ticket, a [Rating] only under [ticket.status === 'Completed'],
    and the form controls live inside [<Modal visible={modalVisible}>]. *)
Definition render (a : State) (p : Press) : option Call :=
  match p with
  | PressEdit row =>
      item ← tickets a !! row; Some (CallOpenModal (Some item))
  | PressDelete row =>
      item ← tickets a !! row; Some (CallDeleteTicket (Ticket.id item))
  | PressStar row n =>
      item ← tickets a !! row;
      if decide (Ticket.status item = Completed)
      then star ← stars !! n; Some (CallUpdateRating (Ticket.id item) star)
      else None
  | PressAdd => Some (CallOpenModal None)
  | ChangeTitle text => if modalVisible a then Some (CallSetTitle text) else None
  | ChangeDescription text =>
      if modalVisible a then Some (CallSetDescription text) else None
  | PickStatus value => if modalVisible a then Some (CallSetStatus value) else None
  | PressSave => if modalVisible a then Some CallSaveTicket else None
  | PressCancel => if modalVisible a then Some CallCancel else None
  end.

Definition perform (now : Z) (c : Call) (a : State) : State :=
  match c with
  | CallOpenModal ticket => openModal ticket a
  | CallDeleteTicket id => deleteTicket id a
  | CallUpdateRating id newRating => updateRating id newRating a
  | CallSetTitle text => setTitle text a
  | CallSetDescription text => setDescription text a
  | CallSetStatus value => setStatus value a
  | CallSaveTicket => saveTicket now a
  | CallCancel => cancel a
  end.

(** One touch at clock reading [now]; a touch on something that is not
    on the screen changes nothing. *)
Definition step (a : State) (e : Z * Press) : State :=
  match render a e.2 with
  | Some c => perform e.1 c a
  | None => a
  end.

Definition play (es : list (Z * Press)) (a : State) : State := foldl step a es.

(** The operation on the ticket list that a touch amounts to, if it
    reaches [setTickets] at all. *)
Definition op_of (a : State) (e : Z * Press) : option Op :=
  match render a e.2 with
  | Some (CallDeleteTicket id) => Some (Delete id)
  | Some (CallUpdateRating id newRating) => Some (Rate id newRating)
  | Some CallSaveTicket =>
      Some (match currentId a with
            | Some i =>
                if isEditing a && truthy (currentId a)
                then Update i (title a) (description a) (status a)
                else Create e.1 (title a) (description a) (status a)
            | None => Create e.1 (title a) (description a) (status a)
            end)
  | _ => None
  end.

Fixpoint ops_of (es : list (Z * Press)) (a : State) : list Op :=
  match es with
  | [] => []
  | e :: es' => option_list (op_of a e) ++ ops_of es' (step a e)
  end.

(** Two states the screen cannot tell apart: the same tickets, the
    modal shown in both or in none, and the same session while it is
    shown. *)
Definition alike (a b : State) : Prop :=
  tickets a = tickets b
  ∧ modalVisible a = modalVisible b
  ∧ (modalVisible a = true → a = b).

End App.

(** ** The [Counter] component

    The component of [components/Counter.tsx]; the second counter screen
    of the repository has the same state and the same three handlers. *)

(** Arithmetic of the JavaScript [number] type on integer values.  A
    [number] is an IEEE 754 double: an integer is a value of the type when
    it fits a 53-bit significand, and [+] and [-] return the exact result
    rounded to the nearest such value, ties to the even significand.
    (Magnitudes from 2^1024 on, which round to an infinity, are out of
    reach of the code modelled here.) *)
Module JSNumber.

Definition round (x : Z) : Z :=
  let m := Z.abs x in
  let e := Z.max 0 (Z.log2 m - 52) in
  let q := m / 2 ^ e in
  let r := m mod 2 ^ e in
  let q' := match Z.compare (2 * r) (2 ^ e) with
            | Lt => q
            | Gt => q + 1
            | Eq => if Z.even q then q else q + 1
            end in
  Z.sgn x * (q' * 2 ^ e).

Definition add (x y : Z) : Z := round (x + y).
Definition sub (x y : Z) : Z := round (x - y).

End JSNumber.

Module Counter.

(** [useState(0)] *)
Definition initial : Z := 0.

(** [setCount(count + 1)] *)
Definition increment (count : Z) : Z := JSNumber.add count 1.

(** [setCount(count - 1)] *)
Definition decrement (count : Z) : Z := JSNumber.sub count 1.

(** [setCount(0)] *)
Definition reset (count : Z) : Z := 0.

Inductive Button : Type := Plus | Minus | Reset.

Definition press (count : Z) (b : Button) : Z :=
  match b with
  | Plus => increment count
  | Minus => decrement count
  | Reset => reset count
  end.

Definition play (bs : list Button) (count : Z) : Z := foldl press count bs.

End Counter.


(** ** What a row of the list shows *)

Module View.

(** [statusColor]: the object literal [{ Created: 'blue',
    'Under Assistance': 'orange', Completed: 'green' }] indexed by
    [ticket.status]. *)
Definition statusColor (s : Status) : string :=
  match s with
  | Created => "blue"
  | UnderAssistance => "orange"
  | Completed => "green"
  end.

(** The string a status value is. *)
Definition statusText (s : Status) : string :=
  match s with
  | Created => "Created"
  | UnderAssistance => "Under Assistance"
  | Completed => "Completed"
  end.

(** [ticket.rating || 0]: [undefined] and 0 are falsy. *)
Definition ratingOrZero (rating : option Z) : Z :=
  match rating with
  | Some v => if decide (v = 0) then 0 else v
  | None => 0
  end.

(** The [Rating] component: the icon names of the five stars,
    [name={star <= rating ? 'star' : 'star-outline'}]. *)
Definition Rating (rating : Z) : list string :=
  (fun star => if decide (star ≤ rating) then "star" else "star-outline")
    <$> App.stars.

(** The [TicketItem] component: three texts, the colour of the status
    line, and the stars under [ticket.status === 'Completed']. *)
Record Row : Type := mkRow {
  rowTitle : string;
  rowDescription : string;
  rowStatus : string;
  rowColor : string;
  rowStars : option (list string)
}.

Definition TicketItem (ticket : Ticket) : Row :=
  mkRow (Ticket.title ticket) (Ticket.description ticket)
    (String.append "Status: " (statusText (Ticket.status ticket)))
    (statusColor (Ticket.status ticket))
    (if decide (Ticket.status ticket = Completed)
     then Some (Rating (ratingOrZero (Ticket.rating ticket)))
     else None).

(** The touches bound to a handler that calls [setTickets]. *)
Definition reaches_tickets (p : App.Press) : bool :=
  match p with
  | App.PressSave | App.PressDelete _ | App.PressStar _ _ => true
  | _ => false
  end.

End View.

(** The counter on unbounded integers, the reference the [Counter]
    component is compared with. *)
Definition tally (count : Z) (b : Counter.Button) : Z :=
  match b with
  | Counter.Plus => count + 1
  | Counter.Minus => count - 1
  | Counter.Reset => 0
  end.


(** * Properties *)

(** ** Pointwise behaviour of the list updates *)

Section Pointwise.
Implicit Types (ts : list Ticket) (t u : Ticket) (i : string) (k : nat).

(** A [map] whose test matches no element returns the list as it is. *)
Lemma fmap_no_match (f : Ticket → Ticket) i ts :
  i ∉ ids ts →
  (fun t => if decide (Ticket.id t = i) then f t else t) <$> ts = ts.
Proof.
  unfold ids. induction ts as [|t ts IH]; [done|].
  rewrite !fmap_cons, not_elem_of_cons. intros [Hne Hts].
  rewrite decide_False by done. f_equal. by apply IH.
Qed.

Lemma editTicket_hit i ti d s ts k t :
  ts !! k = Some t → Ticket.id t = i →
  editTicket i ti d s ts !! k = Some (edited ti d s t).
Proof.
  intros Hk Hid. unfold editTicket.
  rewrite list_lookup_fmap, Hk. simpl. by rewrite decide_True.
Qed.

Lemma editTicket_miss i ti d s ts k t :
  ts !! k = Some t → Ticket.id t ≠ i →
  editTicket i ti d s ts !! k = Some t.
Proof.
  intros Hk Hid. unfold editTicket.
  rewrite list_lookup_fmap, Hk. simpl. by rewrite decide_False.
Qed.

Lemma rateTicket_hit i v ts k t :
  ts !! k = Some t → Ticket.id t = i →
  rateTicket i v ts !! k = Some (rated v t).
Proof.
  intros Hk Hid. unfold rateTicket.
  rewrite list_lookup_fmap, Hk. simpl. by rewrite decide_True.
Qed.

Lemma rateTicket_miss i v ts k t :
  ts !! k = Some t → Ticket.id t ≠ i →
  rateTicket i v ts !! k = Some t.
Proof.
  intros Hk Hid. unfold rateTicket.
  rewrite list_lookup_fmap, Hk. simpl. by rewrite decide_False.
Qed.

Lemma removeTicket_no_match i ts : i ∉ ids ts → removeTicket i ts = ts.
Proof.
  unfold ids, removeTicket. induction ts as [|t ts IH]; [done|].
  rewrite fmap_cons, not_elem_of_cons. intros [Hne Hts].
  rewrite filter_cons_True by done. f_equal. by apply IH.
Qed.

Lemma removeTicket_clears i ts :
  Forall (fun u => Ticket.id u ≠ i) (removeTicket i ts).
Proof.
  apply Forall_forall. intros u Hu.
  by apply list_elem_of_filter in Hu as [? _].
Qed.

(** The tickets a deletion drops are exactly those carrying the id. *)
Lemma removeTicket_length i ts :
  (length (removeTicket i ts)
     + length (filter (fun u => Ticket.id u = i) ts) = length ts)%nat.
Proof.
  unfold removeTicket. induction ts as [|t ts IH]; [done|].
  rewrite !filter_cons. destruct (decide (Ticket.id t = i)) as [He|Hne].
  - rewrite decide_False by (intros H; by apply H). simpl. lia.
  - rewrite decide_True by done. simpl. lia.
Qed.

(** *** Identifiers under the updates *)

Lemma ids_addTicket now ti d s ts :
  ids (addTicket now ti d s ts) = ids ts ++ [toString now].
Proof. unfold ids, addTicket. by rewrite fmap_app. Qed.

Lemma ids_editTicket i ti d s ts : ids (editTicket i ti d s ts) = ids ts.
Proof.
  unfold ids, editTicket. rewrite <- list_fmap_compose.
  apply list_fmap_ext. intros _ t _. simpl. by case_decide.
Qed.

Lemma ids_rateTicket i v ts : ids (rateTicket i v ts) = ids ts.
Proof.
  unfold ids, rateTicket. rewrite <- list_fmap_compose.
  apply list_fmap_ext. intros _ t _. simpl. by case_decide.
Qed.

Lemma ids_removeTicket i ts :
  ids (removeTicket i ts) = filter (fun j => j ≠ i) (ids ts).
Proof.
  unfold ids, removeTicket. induction ts as [|t ts IH]; [done|].
  rewrite fmap_cons, !filter_cons.
  case_decide; rewrite ?fmap_cons; by rewrite IH.
Qed.

End Pointwise.

(** ** The handlers of [App] in terms of the list updates *)

Section Handlers.
Import App.

Lemma saveTicket_adding now a :
  isEditing a = false →
  tickets (saveTicket now a)
  = addTicket now (title a) (description a) (status a) (tickets a).
Proof. intros H. unfold saveTicket. rewrite H. simpl. by destruct (currentId a). Qed.

Lemma saveTicket_editing now a i :
  isEditing a = true → currentId a = Some i → i ≠ "" →
  tickets (saveTicket now a)
  = editTicket i (title a) (description a) (status a) (tickets a).
Proof.
  intros He Hi Hne. unfold saveTicket. rewrite He, Hi. simpl.
  by apply String.eqb_neq in Hne as ->.
Qed.

Lemma tickets_deleteTicket i a :
  tickets (deleteTicket i a) = removeTicket i (tickets a).
Proof. done. Qed.

Lemma tickets_updateRating i v a :
  tickets (updateRating i v a) = rateTicket i v (tickets a).
Proof. done. Qed.

End Handlers.

(** ** Operations on single tickets *)

(** C2. When no ticket of the store carries the id, the edit, the
    deletion and the rating each return the ordered collection as it was:
    same tickets, same order, same length.  All three are total functions,
    so none of them fails. *)
Theorem unknown_id_is_no_op (ts : list Ticket) (i ti d : string) (s : Status)
    (v : Z) :
  (i ∉ ids ts) →
  editTicket i ti d s ts = ts
  ∧ removeTicket i ts = ts
  ∧ rateTicket i v ts = ts.
Proof.
  intros Hi. split; [|split].
  - by apply fmap_no_match.
  - by apply removeTicket_no_match.
  - by apply fmap_no_match.
Qed.

Lemma unknown_id_is_no_op_witness :
  ("42" ∉ ids seed)
  ∧ editTicket "42" "X" "Y" Completed seed = seed
  ∧ removeTicket "42" seed = seed
  ∧ rateTicket "42" 5 seed = seed.
Proof.
  assert (H : "42" ∉ ids seed) by (apply (bool_decide_unpack _); vm_compute; exact I).
  split; [exact H|].
  exact (unknown_id_is_no_op seed "42" "X" "Y" Completed 5 H).
Defined.

(** C3 (as amended). When the ticket at position [k] carries the id,
    the edit leaves the length of the collection as it was, puts at
    position [k] a ticket with the same id and the new title, description
    and status, and returns every ticket with another id unchanged at its
    position; [k] being any position that carries the id, every ticket
    with the id is rewritten.  The rating of an edited ticket is absent
    when the new status is not Completed, and is the rating it had
    (present or absent) when the new status is Completed.  When the ids of
    the collection are pairwise different, every ticket at a position
    other than [k] is returned unchanged. *)
Theorem update_in_place (ts : list Ticket) (i ti d : string) (s : Status)
    (k : nat) (t : Ticket) :
  ts !! k = Some t → Ticket.id t = i →
  length (editTicket i ti d s ts) = length ts
  ∧ (∃ t', editTicket i ti d s ts !! k = Some t'
        ∧ Ticket.id t' = i ∧ Ticket.title t' = ti
        ∧ Ticket.description t' = d ∧ Ticket.status t' = s
        ∧ (s ≠ Completed → Ticket.rating t' = None)
        ∧ (s = Completed → Ticket.rating t' = Ticket.rating t))
  ∧ (∀ j u, ts !! j = Some u → Ticket.id u ≠ i →
        editTicket i ti d s ts !! j = Some u)
  ∧ (NoDup (ids ts) →
       ∀ j u, j ≠ k → ts !! j = Some u →
         editTicket i ti d s ts !! j = Some u).
Proof.
  intros Hk Hid. split; [|split; [|split]].
  - unfold editTicket. apply length_fmap.
  - exists (edited ti d s t). split; [by apply editTicket_hit|].
    unfold edited. simpl. repeat split; try done.
    + intros Hs. by rewrite decide_False.
    + intros Hs. by rewrite decide_True.
  - intros j u Hj Hu. by apply editTicket_miss.
  - intros Hnd j u Hjk Hj. apply editTicket_miss; [done|].
    intros Hu. apply Hjk.
    apply (NoDup_lookup (ids ts) j k i Hnd); unfold ids;
      rewrite list_lookup_fmap; [rewrite Hj|rewrite Hk]; simpl; by f_equal.
Qed.

Lemma update_in_place_witness :
  seed !! 2%nat
    = Some (Ticket.mk "3" "UI Feedback" "Improve dashboard layout." Completed
              (Some 4))
  ∧ editTicket "3" "X" "Y" UnderAssistance seed
    = [ Ticket.mk "1" "Login Issue" "User cannot log in with email." Created None;
        Ticket.mk "2" "Payment Bug" "Stripe integration failing on iOS."
          UnderAssistance None;
        Ticket.mk "3" "X" "Y" UnderAssistance None ]
  ∧ ∃ t', editTicket "3" "X" "Y" Completed seed !! 2%nat = Some t'
          ∧ Ticket.rating t' = Some 4.
Proof.
  split; [reflexivity|]. split; [reflexivity|].
  destruct (update_in_place seed "3" "X" "Y" Completed 2
              (Ticket.mk "3" "UI Feedback" "Improve dashboard layout." Completed
                 (Some 4)) eq_refl eq_refl)
    as (_ & (t' & Hk & _ & _ & _ & _ & _ & Hr) & _).
  exists t'. split; [exact Hk|]. exact (Hr eq_refl).
Defined.

(** C3 as stated fails: two creations that read the clock value 7 leave
    the ids 1, 2, 3, 7, 7, and the edit of the ticket at position 3 by its
    id "7" also rewrites the ticket at position 4, which is another
    ticket of the store. *)
Lemma update_rewrites_duplicates :
  ¬ (∀ (ops : list Op) (i ti d : string) (s : Status) (k : nat) (t : Ticket),
        run ops seed !! k = Some t → Ticket.id t = i →
        ∀ j u, j ≠ k → run ops seed !! j = Some u →
          editTicket i ti d s (run ops seed) !! j = Some u).
Proof.
  intros H.
  specialize (H [Create 7 "A" "B" Created; Create 7 "C" "D" Completed]
                "7" "X" "Y" Created 3%nat (Ticket.mk "7" "A" "B" Created None)
                eq_refl eq_refl 4%nat (Ticket.mk "7" "C" "D" Completed None)).
  assert (Hne : 4%nat ≠ 3%nat) by discriminate.
  specialize (H Hne eq_refl). vm_compute in H. discriminate H.
Qed.

(** C4. A creation is a total function of the store: it returns the old
    collection followed by exactly one new ticket, which has the given
    title, description and status and no rating. *)
Theorem create_appends (now : Z) (ti d : string) (s : Status)
    (ts : list Ticket) :
  ∃ t, addTicket now ti d s ts = ts ++ [t]
       ∧ length (addTicket now ti d s ts) = S (length ts)
       ∧ Ticket.title t = ti ∧ Ticket.description t = d
       ∧ Ticket.status t = s ∧ Ticket.rating t = None.
Proof.
  exists (newTicket now ti d s). split; [done|]. split; [|done].
  unfold addTicket. rewrite length_app. simpl. lia.
Qed.

(** C6. When the ticket at position [k] carries the id, rating it with a
    value from 1 to 5 stores that value whatever the status of the ticket
    is; nothing else of the ticket changes. *)
Theorem rate_ignores_status (ts : list Ticket) (i : string) (v : Z) (k : nat)
    (t : Ticket) :
  ts !! k = Some t → Ticket.id t = i → (1 ≤ v ≤ 5)%Z →
  rateTicket i v ts !! k
  = Some (Ticket.mk i (Ticket.title t) (Ticket.description t) (Ticket.status t)
            (Some v)).
Proof.
  intros Hk Hid _. rewrite (rateTicket_hit i v ts k t Hk Hid).
  unfold rated. by rewrite Hid.
Qed.

(** Rating with 3 the seed ticket that is under assistance. *)
Lemma rate_ignores_status_witness :
  seed !! 1%nat
    = Some (Ticket.mk "2" "Payment Bug" "Stripe integration failing on iOS."
              UnderAssistance None)
  ∧ rateTicket "2" 3 seed !! 1%nat
    = Some (Ticket.mk "2" "Payment Bug" "Stripe integration failing on iOS."
              UnderAssistance (Some 3)).
Proof.
  split; [reflexivity|].
  apply (rate_ignores_status seed "2" 3 1
           (Ticket.mk "2" "Payment Bug" "Stripe integration failing on iOS."
              UnderAssistance None)); [reflexivity|reflexivity|lia].
Defined.

(** C9. Two creations that read the same clock value leave two tickets
    with one id.  The by-id operations then reach every ticket with the
    id, at whatever position [k] it is: the edit rewrites it, the rating
    is set on it, and after the deletion no ticket with the id is left
    (the collection shrinks by the number of tickets that carried it). *)
Theorem by_id_reaches_every_match (ts : list Ticket) (i ti d : string)
    (s : Status) (v : Z) (k : nat) (t : Ticket) :
  ts !! k = Some t → Ticket.id t = i →
  editTicket i ti d s ts !! k = Some (edited ti d s t)
  ∧ rateTicket i v ts !! k = Some (rated v t)
  ∧ Forall (fun u => Ticket.id u ≠ i) (removeTicket i ts)
  ∧ (length (removeTicket i ts)
       + length (filter (fun u => Ticket.id u = i) ts) = length ts)%nat
  ∧ (∀ now a b c a' b' c',
        ids (addTicket now a' b' c' (addTicket now a b c ts))
        = ids ts ++ [toString now; toString now]).
Proof.
  intros Hk Hid. repeat split.
  - by apply editTicket_hit.
  - by apply rateTicket_hit.
  - apply removeTicket_clears.
  - apply removeTicket_length.
  - intros. rewrite !ids_addTicket. by rewrite <- app_assoc.
Qed.

(** Two tickets created at clock value 7, at positions 3 and 4. *)
Lemma by_id_reaches_every_match_witness :
  let ts := addTicket 7 "C" "D" Completed (addTicket 7 "A" "B" Created seed) in
  ids ts = ["1"; "2"; "3"; "7"; "7"]
  ∧ ids (removeTicket "7" ts) = ["1"; "2"; "3"]
  ∧ (Ticket.title <$> editTicket "7" "X" "Y" Created ts)
    = ["Login Issue"; "Payment Bug"; "UI Feedback"; "X"; "X"]
  ∧ (Ticket.rating <$> rateTicket "7" 2 ts) = [None; None; Some 4; Some 2; Some 2]
  ∧ editTicket "7" "X" "Y" Created ts !! 4%nat
    = Some (Ticket.mk "7" "X" "Y" Created None).
Proof.
  intros ts. repeat (split; [reflexivity|]).
  destruct (by_id_reaches_every_match ts "7" "X" "Y" Created 2 4
              (Ticket.mk "7" "C" "D" Completed None) eq_refl eq_refl)
    as (He & _).
  exact He.
Defined.

(** C10. The rating handler stores the value it is given, whatever
    integer it is: there is no test on it.  On the screen the only touch
    bound to the handler is a star of a row, and the five stars pass
    1 to 5. *)
Theorem rate_unvalidated (ts : list Ticket) (i : string) (v : Z) (k : nat)
    (t : Ticket) :
  ts !! k = Some t → Ticket.id t = i →
  rateTicket i v ts !! k
  = Some (Ticket.mk i (Ticket.title t) (Ticket.description t) (Ticket.status t)
            (Some v))
  ∧ (∀ a p j w, App.render a p = Some (App.CallUpdateRating j w) →
        ∃ row n, p = App.PressStar row n ∧ App.stars !! n = Some w
                 ∧ (1 ≤ w ≤ 5)%Z).
Proof.
  intros Hk Hid. split.
  - rewrite (rateTicket_hit i v ts k t Hk Hid). unfold rated. by rewrite Hid.
  - intros a p j w Hr. destruct p as [row|row|row n| | | | | |]; simpl in Hr;
      try (destruct (App.tickets a !! row); simpl in Hr; discriminate);
      try (destruct (App.modalVisible a); discriminate); try discriminate.
    exists row, n. split; [done|].
    destruct (App.tickets a !! row) as [item|]; simpl in Hr; [|discriminate].
    destruct (decide (Ticket.status item = Completed)); [|discriminate].
    destruct (App.stars !! n) as [star|] eqn:Hn; simpl in Hr; [|discriminate].
    injection Hr as _ ->. split; [done|].
    unfold App.stars in Hn.
    do 5 (destruct n as [|n]; [injection Hn as <-; lia|]). discriminate.
Qed.

Lemma rate_unvalidated_witness :
  rateTicket "3" (-7) seed !! 2%nat
  = Some (Ticket.mk "3" "UI Feedback" "Improve dashboard layout." Completed
            (Some (-7)))
  ∧ rateTicket "3" 0 seed !! 2%nat
    = Some (Ticket.mk "3" "UI Feedback" "Improve dashboard layout." Completed
              (Some 0))
  ∧ rateTicket "3" 6 seed !! 2%nat
    = Some (Ticket.mk "3" "UI Feedback" "Improve dashboard layout." Completed
              (Some 6)).
Proof.
  split; [|split; reflexivity].
  apply (rate_unvalidated seed "3" (-7) 2
           (Ticket.mk "3" "UI Feedback" "Improve dashboard layout." Completed
              (Some 4)) eq_refl eq_refl).
Defined.

(** ** The rating invariant along sequences of operations *)

Section Invariant.
Implicit Types (ts : list Ticket) (o : Op) (ops : list Op).

Lemma rating_ok_edited ti d s t : rating_ok (edited ti d s t).
Proof.
  unfold rating_ok, edited. simpl. case_decide; [done|].
  intros [x Hx]. discriminate.
Qed.

Lemma invariant_seed : invariant seed.
Proof.
  unfold invariant, seed. repeat constructor; unfold rating_ok; simpl;
    (done || (intros [x Hx]; discriminate)).
Qed.

(** One exposed operation keeps the invariant. *)
Lemma invariant_apply o ts :
  invariant ts → exposed o ts → invariant (apply o ts).
Proof.
  unfold invariant. intros Hinv Hex. destruct o as [now ti d s|i ti d s|i|i v]; simpl.
  - unfold addTicket. apply Forall_app. split; [done|].
    constructor; [|done]. unfold rating_ok. simpl. intros [x Hx]. discriminate.
  - unfold editTicket. apply Forall_fmap. eapply Forall_impl; [exact Hinv|].
    intros t Ht. simpl. case_decide; [apply rating_ok_edited|done].
  - apply Forall_forall. intros t Ht.
    apply list_elem_of_filter in Ht as [_ Ht].
    by apply (proj1 (Forall_forall _ _) Hinv).
  - simpl in Hex. unfold rateTicket. apply Forall_fmap.
    apply Forall_forall. intros t Ht. simpl.
    case_decide as Hid.
    + intros _. simpl. by apply (proj1 (Forall_forall _ _) Hex t Ht).
    + by apply (proj1 (Forall_forall _ _) Hinv).
Qed.

Lemma invariant_trace ops : ∀ ts,
  invariant ts → admissible ops ts → Forall invariant (trace ops ts).
Proof.
  induction ops as [|o ops IH]; intros ts Hinv Hadm; simpl; [done|].
  destruct Hadm as [Hex Hadm].
  assert (invariant (apply o ts)) by by apply invariant_apply.
  constructor; [done|]. by apply IH.
Qed.

End Invariant.

(** C1 (as amended). From the seed, along every sequence of creations,
    edits, deletions and ratings in which each rating is applied only
    when all tickets with its id are Completed (a row of the screen shows
    its stars only when it is Completed), every store seen after an
    operation satisfies the invariant: a ticket that has a rating is
    Completed. *)
Theorem invariant_after_each_operation (ops : list Op) :
  admissible ops seed → Forall invariant (trace ops seed).
Proof. apply invariant_trace, invariant_seed. Qed.

Lemma invariant_after_each_operation_witness :
  let ops := [ Create 1700000000000 "A" "B" Created; Rate "3" 5;
               Update "3" "X" "Y" UnderAssistance; Delete "1";
               Update "1700000000000" "A" "B" Completed;
               Rate "1700000000000" 2 ] in
  admissible ops seed ∧ Forall invariant (trace ops seed).
Proof.
  intros ops.
  assert (H : admissible ops seed)
    by (apply (bool_decide_unpack _); vm_compute; exact I).
  split; [exact H|]. exact (invariant_after_each_operation ops H).
Defined.

(** C1 as stated fails: rating the seed ticket "1", which is Created,
    leaves a ticket with a rating that is not Completed. *)
Lemma rating_outside_completed :
  ¬ (∀ ops : list Op, Forall invariant (trace ops seed)).
Proof.
  intros H. specialize (H [Rate "1" 3]). simpl in H.
  apply Forall_cons_1 in H as [H _]. unfold invariant in H.
  apply Forall_cons_1 in H as [H _].
  assert (Hc : Created = Completed) by (apply H; by eexists).
  discriminate Hc.
Qed.

(** ** Identifiers *)

Section Identifiers.
Implicit Types (ts : list Ticket) (o : Op) (ops : list Op) (n : Z).

(** Two clock values print alike only when they are equal. *)
Lemma toString_inj n n' : toString n = toString n' → n = n'.
Proof.
  unfold toString. intros H. apply DecimalZ.to_int_inj.
  assert (Hp : ∀ z, NilZero.int_of_string (NilZero.string_of_int (Z.to_int z))
                    = Some (Z.to_int z)).
  { intros z. apply NilZero.isi; destruct z as [|p|p]; simpl; try discriminate;
      intros [= Hz]; by apply DecimalPos.Unsigned.to_uint_nonnil in Hz. }
  apply (f_equal NilZero.int_of_string) in H.
  rewrite !Hp in H. by injection H.
Qed.

(** An operation brings in no id but the one a creation prints. *)
Lemma ids_apply o ts x :
  x ∈ ids (apply o ts) → x ∈ ids ts ∨ x ∈ toString <$> clock o.
Proof.
  destruct o as [now ti d s|i ti d s|i|i v]; simpl.
  - rewrite ids_addTicket, elem_of_app. intros [H|H]; [by left|by right].
  - rewrite ids_editTicket. by left.
  - rewrite ids_removeTicket. intros H.
    apply list_elem_of_filter in H as [_ H]. by left.
  - rewrite ids_rateTicket. by left.
Qed.

Lemma run_snoc ops o ts : run (ops ++ [o]) ts = apply o (run ops ts).
Proof. unfold run. by rewrite foldl_app. Qed.

Lemma clocks_snoc ops o : clocks (ops ++ [o]) = clocks ops ++ clock o.
Proof. unfold clocks. rewrite bind_app. simpl. by rewrite app_nil_r. Qed.

Lemma ids_run ops ts x :
  x ∈ ids (run ops ts) → x ∈ ids ts ∨ x ∈ toString <$> clocks ops.
Proof.
  induction ops as [|o ops IH] using rev_ind; [by left|].
  rewrite run_snoc, clocks_snoc, fmap_app. intros H.
  apply ids_apply in H as [H|H].
  - destruct (IH H) as [?|?]; [by left|]. right. apply elem_of_app. by left.
  - right. apply elem_of_app. by right.
Qed.

(** A reading that no earlier creation saw, and that is none of the
    seed's 1, 2, 3, prints an id that is not in the store. *)
Lemma fresh_reading ops now :
  now ∉ clocks ops → now ∉ [1; 2; 3] → toString now ∉ ids (run ops seed).
Proof.
  intros Hc Hs Hin. apply ids_run in Hin as [Hin|Hin].
  - apply Hs. change (ids seed) with (toString <$> [1; 2; 3]) in Hin.
    apply list_elem_of_fmap in Hin as (m & Hm & Hin).
    by apply toString_inj in Hm as ->.
  - apply Hc. apply list_elem_of_fmap in Hin as (m & Hm & Hin).
    by apply toString_inj in Hm as ->.
Qed.

Lemma NoDup_ids_run ops :
  NoDup (clocks ops) → Forall (fun n => n ∉ [1; 2; 3]) (clocks ops) →
  NoDup (ids (run ops seed)).
Proof.
  induction ops as [|o ops IH] using rev_ind; intros Hnd Hs.
  - apply (bool_decide_unpack _). by vm_compute.
  - rewrite clocks_snoc in Hnd, Hs. rewrite run_snoc.
    apply NoDup_app in Hnd as (Hnd & Hfr & _).
    apply Forall_app in Hs as [Hs Hso].
    specialize (IH Hnd Hs).
    destruct o as [now ti d s|i ti d s|i|i v]; simpl.
    + rewrite ids_addTicket. apply NoDup_app. split; [done|]. split.
      * intros x Hx Hx'. apply list_elem_of_singleton in Hx' as ->.
        revert Hx. apply fresh_reading.
        -- intros Hin. apply (Hfr _ Hin). simpl. constructor.
        -- simpl in Hso. by apply Forall_cons_1 in Hso as [Hso _].
      * apply NoDup_singleton.
    + by rewrite ids_editTicket.
    + rewrite ids_removeTicket. by apply NoDup_filter.
    + by rewrite ids_rateTicket.
Qed.

End Identifiers.

(** C5 (as amended). A creation takes as id the decimal print of the
    clock reading.  From the seed, when the readings of the creations are
    pairwise different and none is 1, 2 or 3 (the seed's ids), the ids of
    the store are pairwise different, and the id a further creation
    allocates at such a reading is not in the store.  No operation changes
    the id of a ticket: an edit and a rating keep the list of ids, a
    creation extends it at the end, a deletion drops the entries equal to
    its argument. *)
Theorem ids_unique_under_distinct_readings (ops : list Op) :
  NoDup (clocks ops) → Forall (fun n => n ∉ [1; 2; 3]) (clocks ops) →
  NoDup (ids (run ops seed))
  ∧ (∀ now ti d s, now ∉ clocks ops → now ∉ [1; 2; 3] →
        Ticket.id (newTicket now ti d s) ∉ ids (run ops seed))
  ∧ (∀ ts now ti d s, ids (addTicket now ti d s ts) = ids ts ++ [toString now])
  ∧ (∀ ts i ti d s, ids (editTicket i ti d s ts) = ids ts)
  ∧ (∀ ts i v, ids (rateTicket i v ts) = ids ts)
  ∧ (∀ ts i, ids (removeTicket i ts) = filter (fun j => j ≠ i) (ids ts)).
Proof.
  intros Hnd Hs. split; [by apply NoDup_ids_run|]. split.
  { intros now ti d s Hc Hn. simpl. by apply fresh_reading. }
  split; [intros; apply ids_addTicket|].
  split; [intros; apply ids_editTicket|].
  split; [intros; apply ids_rateTicket|intros; apply ids_removeTicket].
Qed.

Lemma ids_unique_under_distinct_readings_witness :
  let ops := [ Create 1700000000000 "A" "B" Created; Delete "2";
               Create 1700000000001 "C" "D" Completed;
               Update "1700000000000" "E" "F" Completed ] in
  NoDup (clocks ops)
  ∧ Forall (fun n => n ∉ [1; 2; 3]) (clocks ops)
  ∧ ids (run ops seed) = ["1"; "3"; "1700000000000"; "1700000000001"]
  ∧ NoDup (ids (run ops seed)).
Proof.
  intros ops.
  assert (H1 : NoDup (clocks ops))
    by (apply (bool_decide_unpack _); vm_compute; exact I).
  assert (H2 : Forall (fun n => n ∉ [1; 2; 3]) (clocks ops))
    by (apply (bool_decide_unpack _); vm_compute; exact I).
  split; [exact H1|]. split; [exact H2|]. split; [reflexivity|].
  exact (proj1 (ids_unique_under_distinct_readings ops H1 H2)).
Defined.

(** C5 as stated fails: a second creation at the clock reading of an
    earlier one allocates the id that ticket already has. *)
Lemma same_reading_same_id :
  ¬ (∀ (ops : list Op) now ti d s,
        Ticket.id (newTicket now ti d s) ∉ ids (run ops seed)).
Proof.
  intros H.
  apply (H [Create 1700000000000 "A" "B" Created] 1700000000000 "C" "D" Created).
  apply (bool_decide_unpack _). by vm_compute.
Qed.

(** ** The screen as a client of the store operations *)

Section Screen.
Import App.
Implicit Types (a : State) (e : Z * Press) (es : list (Z * Press)).

Lemma tickets_step a e :
  tickets (step a e)
  = match op_of a e with
    | Some o => apply o (tickets a)
    | None => tickets a
    end.
Proof.
  unfold step, op_of. destruct (render a e.2) as [c|]; [|done].
  destruct c as [ticket| | | | | | |]; simpl; try done.
  - by destruct ticket.
  - destruct (currentId a); [|done]. by destruct (isEditing a && truthy _).
Qed.

(** The tickets after a run of touches are those of the run of the
    operations the touches amount to. *)
Lemma tickets_play es : ∀ a,
  tickets (play es a) = run (ops_of es a) (tickets a).
Proof.
  induction es as [|e es IH]; intros a; [done|].
  change (play (e :: es) a) with (play es (step a e)).
  rewrite IH, tickets_step. simpl. unfold run. rewrite foldl_app.
  by destruct (op_of a e).
Qed.

Lemma ops_of_snoc es e : ∀ a,
  ops_of (es ++ [e]) a = ops_of es a ++ option_list (op_of (play es a) e).
Proof.
  induction es as [|e' es IH]; intros a; simpl.
  - by rewrite app_nil_r.
  - rewrite IH. by rewrite app_assoc.
Qed.

(** The stars of a row are drawn when that row is Completed; with
    pairwise different ids the row is the only ticket its rating reaches. *)
Lemma exposed_op_of a e o :
  NoDup (ids (tickets a)) → op_of a e = Some o → exposed o (tickets a).
Proof.
  intros Hnd Ho. destruct o as [now ti d s|i ti d s|i|i v]; simpl; try done.
  unfold op_of in Ho. destruct e as [now p].
  destruct p as [row|row|row n| | | | | |]; simpl in Ho;
    try (destruct (tickets a !! row); simpl in Ho; discriminate);
    try (destruct (modalVisible a); try discriminate;
         destruct (currentId a); try discriminate;
         destruct (isEditing a && truthy _); discriminate);
    try discriminate.
  destruct (tickets a !! row) as [item|] eqn:Hrow; simpl in Ho; [|discriminate].
  destruct (decide (Ticket.status item = Completed)) as [Hst|]; [|discriminate].
  destruct (stars !! n); simpl in Ho; [|discriminate].
  injection Ho as <- _.
  apply Forall_forall. intros t Ht Hid.
  apply list_elem_of_lookup in Ht as [k Hk].
  assert (Hrk : k = row).
  { apply (NoDup_lookup _ _ _ (Ticket.id item) Hnd); unfold ids;
      rewrite list_lookup_fmap; [rewrite Hk|rewrite Hrow]; simpl; by f_equal. }
  subst k. rewrite Hrow in Hk. by injection Hk as <-.
Qed.

Lemma admissible_app ops ops' : ∀ ts,
  admissible (ops ++ ops') ts ↔ admissible ops ts ∧ admissible ops' (run ops ts).
Proof.
  induction ops as [|o ops IH]; intros ts; simpl; [tauto|].
  rewrite IH. unfold run. simpl. tauto.
Qed.

Lemma invariant_run ops : ∀ ts,
  invariant ts → admissible ops ts → invariant (run ops ts).
Proof.
  induction ops as [|o ops IH]; intros ts Hinv Hadm; [done|].
  destruct Hadm as [Hex Hadm]. apply (IH (apply o ts)); [|done].
  by apply invariant_apply.
Qed.

(** While the creations read pairwise different clock values (none of
    them 1, 2 or 3), the touches of the screen amount to an admissible
    sequence of operations. *)
Lemma screen_admissible es :
  NoDup (clocks (ops_of es initial)) →
  Forall (fun n => n ∉ [1; 2; 3]) (clocks (ops_of es initial)) →
  admissible (ops_of es initial) seed.
Proof.
  induction es as [|e es IH] using rev_ind; intros Hnd Hs; [done|].
  rewrite ops_of_snoc in *. unfold clocks in Hnd, Hs.
  rewrite bind_app in Hnd, Hs.
  apply NoDup_app in Hnd as (Hnd & _ & _). apply Forall_app in Hs as [Hs _].
  apply admissible_app. split; [by apply IH|].
  destruct (op_of (play es initial) e) as [o|] eqn:Ho; [|done].
  simpl. split; [|done].
  change seed with (tickets initial). rewrite <- tickets_play.
  apply (exposed_op_of _ e); [|done].
  rewrite tickets_play. by apply NoDup_ids_run.
Qed.

(** X1. On the screen, after every run of touches from the initial
    state, a ticket that has a rating is Completed and the ids are
    pairwise different, as long as the creations of the run read pairwise
    different clock values, none of them 1, 2 or 3. *)
Lemma screen_invariant es :
  NoDup (clocks (ops_of es initial)) →
  Forall (fun n => n ∉ [1; 2; 3]) (clocks (ops_of es initial)) →
  invariant (tickets (play es initial))
  ∧ NoDup (ids (tickets (play es initial))).
Proof.
  intros Hnd Hs. rewrite tickets_play. split.
  - apply invariant_run; [apply invariant_seed|by apply screen_admissible].
  - by apply NoDup_ids_run.
Qed.

(** The id of a ticket is never the empty string, so the test
    [isEditing && currentId] of [saveTicket] fails only outside an edit. *)
Lemma toString_nonempty n : toString n ≠ "".
Proof.
  unfold toString. destruct n as [|p|p]; simpl; [done| |done].
  pose proof (DecimalPos.Unsigned.to_uint_nonnil p) as Hp.
  by destruct (Pos.to_uint p).
Qed.

Lemma ids_nonempty ops : "" ∉ ids (run ops seed).
Proof.
  intros Hin. apply ids_run in Hin as [Hin|Hin].
  - revert Hin. apply (bool_decide_unpack _). by vm_compute.
  - apply list_elem_of_fmap in Hin as (n & Hn & _).
    by apply (toString_nonempty n).
Qed.

Lemma editing_target es :
  let a := play es initial in
  isEditing a = true → ∃ i, currentId a = Some i ∧ i ≠ "".
Proof.
  induction es as [|e es IH] using rev_ind; [done|].
  unfold play in *. rewrite foldl_app. simpl in *.
  fold (play es initial) in *. set (a := play es initial) in *.
  unfold step. destruct (render a e.2) as [c|] eqn:Hr; [|done].
  destruct c as [[item|]| | | | | | |]; simpl; try done.
  intros _. exists (Ticket.id item). split; [done|]. intros Hid.
  destruct e as [now p]. destruct p as [row|row|row n| | | | | |]; simpl in Hr;
    try (destruct (tickets a !! row); simpl in Hr;
         try case_decide; try destruct (stars !! n); discriminate);
    try (destruct (modalVisible a); discriminate); try discriminate.
  destruct (tickets a !! row) as [item'|] eqn:Hrow; simpl in Hr; [|discriminate].
  injection Hr as ->.
  apply (ids_nonempty (ops_of es initial)).
  change seed with (tickets initial). rewrite <- tickets_play. fold a.
  rewrite <- Hid. apply list_elem_of_fmap. exists item. split; [done|].
  apply list_elem_of_lookup. by exists row.
Qed.

(** X2. In every state the screen can reach, a save during an edit
    rewrites the tickets with the id the form was opened on and appends
    nothing: the test [isEditing && currentId] cannot fail there, because
    no ticket has the empty string as id. *)
Lemma save_in_edit es now :
  let a := play es initial in
  isEditing a = true →
  ∃ i, currentId a = Some i
       ∧ tickets (saveTicket now a)
         = editTicket i (title a) (description a) (status a) (tickets a).
Proof.
  intros a He. destruct (editing_target es He) as (i & Hi & Hne).
  exists i. split; [done|]. by apply saveTicket_editing.
Qed.

End Screen.

Lemma screen_invariant_witness :
  let es := [ (10, App.PressAdd); (11, App.ChangeTitle "A");
              (12, App.PickStatus Completed); (13, App.PressSave);
              (14, App.PressStar 3 4); (15, App.PressStar 0 2);
              (16, App.PressEdit 2); (17, App.PickStatus Created);
              (18, App.PressSave); (19, App.PressDelete 1) ] in
  NoDup (clocks (App.ops_of es App.initial))
  ∧ Forall (fun n => n ∉ [1; 2; 3]) (clocks (App.ops_of es App.initial))
  ∧ ids (App.tickets (App.play es App.initial)) = ["1"; "3"; "13"]
  ∧ invariant (App.tickets (App.play es App.initial)).
Proof.
  intros es.
  assert (H1 : NoDup (clocks (App.ops_of es App.initial)))
    by (apply (bool_decide_unpack _); vm_compute; exact I).
  assert (H2 : Forall (fun n => n ∉ [1; 2; 3])
                 (clocks (App.ops_of es App.initial)))
    by (apply (bool_decide_unpack _); vm_compute; exact I).
  split; [exact H1|]. split; [exact H2|]. split; [reflexivity|].
  exact (proj1 (screen_invariant es H1 H2)).
Defined.

Lemma save_in_edit_witness :
  let a := App.play [(10, App.PressEdit 2); (11, App.ChangeTitle "X")]
             App.initial in
  App.isEditing a = true
  ∧ ∃ i, App.currentId a = Some i
         ∧ App.tickets (App.saveTicket 12 a)
           = editTicket i (App.title a) (App.description a) (App.status a)
               (App.tickets a).
Proof.
  intros a. split; [reflexivity|].
  exact (save_in_edit [(10, App.PressEdit 2); (11, App.ChangeTitle "X")] 12
           eq_refl).
Defined.

(** ** Closing the form *)

Section Cancel.
Import App.

Lemma alike_refl a : alike a a.
Proof. by repeat split. Qed.

(** With the modal hidden, a touch reads the tickets only. *)
Lemma alike_step a b e : alike a b → alike (step a e) (step b e).
Proof.
  intros (Ht & Hm & Hs). destruct (modalVisible a) eqn:Ha.
  { rewrite (Hs eq_refl). apply alike_refl. }
  symmetry in Hm.
  destruct a as [tsa ma ea ca tia da sa], b as [tsb mb eb cb tib db sb].
  simpl in *. subst tsb ma mb. clear Hs.
  destruct e as [now p]. unfold step. simpl.
  destruct p as [row|row|row n| | | | | |]; simpl;
    try (by repeat split).
  - destruct (tsa !! row) as [item|]; simpl; by repeat split.
  - destruct (tsa !! row) as [item|]; simpl; by repeat split.
  - destruct (tsa !! row) as [item|]; simpl; [|by repeat split].
    case_decide; [|by repeat split].
    destruct (stars !! n) as [star|]; simpl; by repeat split.
Qed.

Lemma alike_play es : ∀ a b, alike a b → alike (play es a) (play es b).
Proof.
  induction es as [|e es IH]; intros a b H; [done|].
  simpl. by apply IH, alike_step.
Qed.

End Cancel.

(** C7. The Cancel button leaves the tickets as they are and hides the
    modal.  The session it abandons is discarded: whatever the title,
    description, status and edit target were, every later sequence of
    touches runs as it would from a closed form with any other session
    contents: same tickets, same modal visibility, and the same session
    whenever the form is open again. *)
Theorem cancel_discards_session (a : App.State) :
  App.tickets (App.cancel a) = App.tickets a
  ∧ App.modalVisible (App.cancel a) = false
  ∧ (∀ e c ti d s es,
        App.alike (App.play es (App.cancel a))
          (App.play es (App.mk (App.tickets a) false e c ti d s))).
Proof.
  split; [done|]. split; [done|].
  intros e c ti d s es. apply alike_play. repeat split. discriminate.
Qed.

(** ** The counter *)

Section CounterArithmetic.
Import Counter.

(** Integers of magnitude up to 2^53 are values of the number type. *)
Lemma round_exact x : Z.abs x ≤ 2 ^ 53 → JSNumber.round x = x.
Proof.
  intros Hx. destruct (decide (Z.abs x = 2 ^ 53)) as [He|Hne].
  - assert (Hc : x = 2 ^ 53 ∨ x = - 2 ^ 53) by lia.
    destruct Hc as [-> | ->]; by vm_compute.
  - assert (Hl : Z.log2 (Z.abs x) - 52 ≤ 0).
    { destruct (decide (Z.abs x = 0)) as [->|Hz]; [by vm_compute|].
      assert (Z.log2 (Z.abs x) < 53) by (apply Z.log2_lt_pow2; lia). lia. }
    unfold JSNumber.round. rewrite (Z.max_l 0 _ Hl).
    change (2 ^ 0) with 1. rewrite Z.div_1_r, Z.mod_1_r. simpl.
    destruct x; simpl; lia.
Qed.

Lemma increment_exact c : - 2 ^ 53 ≤ c < 2 ^ 53 → increment c = c + 1.
Proof. intros H. unfold increment, JSNumber.add. apply round_exact. lia. Qed.

Lemma decrement_exact c : - 2 ^ 53 < c ≤ 2 ^ 53 → decrement c = c - 1.
Proof. intros H. unfold decrement, JSNumber.sub. apply round_exact. lia. Qed.

(** Pressing [+] [k] more times, while the count stays within 2^53. *)
Lemma play_plus_from (k : nat) : ∀ c,
  0 ≤ c → c + Z.of_nat k ≤ 2 ^ 53 →
  play (replicate k Plus) c = c + Z.of_nat k.
Proof.
  induction k as [|k IH]; intros c H0 Hk.
  - simpl. lia.
  - rewrite Nat2Z.inj_succ in *.
    change (play (replicate (S k) Plus) c)
      with (play (replicate k Plus) (increment c)).
    rewrite increment_exact by lia. rewrite IH by lia. lia.
Qed.

Lemma play_plus (n : Z) :
  0 ≤ n ≤ 2 ^ 53 → play (replicate (Z.to_nat n) Plus) 0 = n.
Proof.
  intros H. rewrite play_plus_from; rewrite ?Z2Nat.id; lia.
Qed.

(** The counts a sequence of presses can show. *)
Lemma play_bounded bs : ∀ c,
  Z.abs c ≤ 2 ^ 53 → Z.abs (play bs c) ≤ 2 ^ 53.
Proof.
  induction bs as [|b bs IH]; intros c Hc; [done|].
  change (play (b :: bs) c) with (play bs (press c b)). apply IH.
  destruct b; unfold press, reset.
  - destruct (decide (c = 2 ^ 53)) as [->|Hne]; [by vm_compute|].
    rewrite increment_exact; lia.
  - destruct (decide (c = - 2 ^ 53)) as [->|Hne]; [by vm_compute|].
    rewrite decrement_exact; lia.
  - by vm_compute.
Qed.

End CounterArithmetic.

(** C8 (as amended). The counter starts at 0.  On a count of magnitude
    below 2^53 the [+] button adds exactly 1 and the [-] button subtracts
    exactly 1; there is no floor at 0, [-] on 0 gives -1.  Reset gives 0
    from any count, and [+], [+], [-], Reset from the start ends at 0. *)
Theorem counter_steps (count : Z) :
  Z.abs count < 2 ^ 53 →
  Counter.initial = 0
  ∧ Counter.increment count = count + 1
  ∧ Counter.decrement count = count - 1
  ∧ Counter.decrement 0 = -1
  ∧ Counter.reset count = 0
  ∧ Counter.play [Counter.Plus; Counter.Plus; Counter.Minus; Counter.Reset]
      Counter.initial = 0.
Proof.
  intros H. split; [done|].
  split; [apply increment_exact; lia|].
  split; [apply decrement_exact; lia|].
  split; [by vm_compute|]. split; [done|by vm_compute].
Qed.

Lemma counter_steps_witness :
  Z.abs (-1) < 2 ^ 53
  ∧ Counter.increment (-1) = 0
  ∧ Counter.decrement (-1) = -2.
Proof.
  assert (H : Z.abs (-1) < 2 ^ 53) by (vm_compute; reflexivity).
  split; [exact H|].
  destruct (counter_steps (-1) H) as (_ & Hi & Hd & _).
  split; [exact Hi|exact Hd].
Defined.

(** C8 as stated fails: after 2^53 presses of [+] the count is 2^53, and
    one more press leaves it there, because 2^53 + 1 is not a value of the
    number type and the sum rounds back to 2^53. *)
Lemma counter_saturates :
  ¬ (∀ bs : list Counter.Button,
        Counter.increment (Counter.play bs Counter.initial)
        = Counter.play bs Counter.initial + 1).
Proof.
  intros H. specialize (H (replicate (Z.to_nat (2 ^ 53)) Counter.Plus)).
  unfold Counter.initial in H.
  rewrite (play_plus (2 ^ 53)) in H by lia.
  vm_compute in H. discriminate H.
Qed.

(** * Further properties of the ticket list *)

Section Rows.
Implicit Types (ts : list Ticket) (t u : Ticket) (i j : string) (k : nat).

(** With pairwise different ids, the id of a row occurs neither above
    nor below it. *)
Lemma row_id_elsewhere ts k t :
  NoDup (ids ts) → ts !! k = Some t →
  (Ticket.id t ∉ ids (take k ts)) ∧ Ticket.id t ∉ ids (drop (S k) ts).
Proof.
  intros Hnd Hk.
  assert (Hs : NoDup (ids (take k ts) ++ Ticket.id t :: ids (drop (S k) ts))).
  { unfold ids. rewrite <- fmap_cons, <- fmap_app.
    by rewrite (take_drop_middle ts k t Hk). }
  apply NoDup_app in Hs as (_ & Hpre & Hpost).
  apply NoDup_cons in Hpost as [Hpost _]. split; [|done].
  intros Hin. apply (Hpre _ Hin). constructor.
Qed.

(** A [map] by id rewrites one row when ids are pairwise different. *)
Lemma fmap_by_id_row (f : Ticket → Ticket) ts k t :
  NoDup (ids ts) → ts !! k = Some t →
  (fun u => if decide (Ticket.id u = Ticket.id t) then f u else u) <$> ts
  = <[k := f t]> ts.
Proof.
  intros Hnd Hk. destruct (row_id_elsewhere ts k t Hnd Hk) as [Hpre Hpost].
  rewrite insert_take_drop by (by eapply lookup_lt_Some).
  rewrite <- (take_drop_middle ts k t Hk) at 1.
  rewrite fmap_app, fmap_cons, decide_True by done.
  by rewrite !fmap_no_match.
Qed.

(** A deletion and a [map] that keeps ids can be done in either order. *)
Lemma removeTicket_fmap (f : Ticket → Ticket) i ts :
  (∀ t, Ticket.id (f t) = Ticket.id t) →
  removeTicket i (f <$> ts) = f <$> removeTicket i ts.
Proof.
  intros Hf. unfold removeTicket. induction ts as [|t ts IH]; [done|].
  rewrite fmap_cons, !filter_cons, Hf.
  case_decide; rewrite ?fmap_cons; by rewrite IH.
Qed.

(** A deletion by the id of a row drops that row only when ids are
    pairwise different. *)
Lemma removeTicket_row ts k t :
  NoDup (ids ts) → ts !! k = Some t →
  removeTicket (Ticket.id t) ts = take k ts ++ drop (S k) ts.
Proof.
  intros Hnd Hk. destruct (row_id_elsewhere ts k t Hnd Hk) as [Hpre Hpost].
  rewrite <- (take_drop_middle ts k t Hk) at 1. unfold removeTicket.
  rewrite filter_app, filter_cons_False by (intros H; by apply H).
  fold (removeTicket (Ticket.id t) (take k ts)).
  fold (removeTicket (Ticket.id t) (drop (S k) ts)).
  by rewrite !removeTicket_no_match.
Qed.

Lemma id_edited_or_not i ti d s t :
  Ticket.id (if decide (Ticket.id t = i) then edited ti d s t else t)
  = Ticket.id t.
Proof. by case_decide. Qed.

Lemma id_rated_or_not i v t :
  Ticket.id (if decide (Ticket.id t = i) then rated v t else t) = Ticket.id t.
Proof. by case_decide. Qed.

Lemma length_apply o ts :
  (length (apply o ts) ≤ length ts + length (clock o))%nat.
Proof.
  destruct o as [now ti d s|i ti d s|i|i v]; simpl.
  - unfold addTicket. rewrite length_app. simpl. lia.
  - unfold editTicket. rewrite length_fmap. lia.
  - pose proof (length_filter (fun t => Ticket.id t ≠ i) ts).
    unfold removeTicket. lia.
  - unfold rateTicket. rewrite length_fmap. lia.
Qed.

End Rows.

(** X8. In a list with pairwise different ids, deleting by the id of the
    ticket at row [k] removes that row and nothing else: the rows above
    and below stay, in their order, and the list is one shorter. *)
Theorem delete_one_row (ts : list Ticket) (k : nat) (t : Ticket) :
  NoDup (ids ts) → ts !! k = Some t →
  removeTicket (Ticket.id t) ts = take k ts ++ drop (S k) ts
  ∧ S (length (removeTicket (Ticket.id t) ts)) = length ts.
Proof.
  intros Hnd Hk.
  pose proof (removeTicket_row ts k t Hnd Hk) as He.
  split; [done|]. rewrite He.
  rewrite <- (take_drop_middle ts k t Hk) at 3.
  rewrite !length_app. simpl. lia.
Qed.

Lemma delete_one_row_witness :
  NoDup (ids seed)
  ∧ removeTicket "2" seed
    = [ Ticket.mk "1" "Login Issue" "User cannot log in with email." Created None;
        Ticket.mk "3" "UI Feedback" "Improve dashboard layout." Completed
          (Some 4) ].
Proof.
  assert (H : NoDup (ids seed))
    by (apply (bool_decide_unpack _); vm_compute; exact I).
  split; [exact H|].
  exact (proj1 (delete_one_row seed 1
                  (Ticket.mk "2" "Payment Bug"
                     "Stripe integration failing on iOS." UnderAssistance None)
                  H eq_refl)).
Defined.

(** X9. In a list with pairwise different ids, rating or editing by the
    id of the ticket at row [k] is an in-place update of row [k]: every
    other row is returned as it was. *)
Theorem update_one_row (ts : list Ticket) (k : nat) (t : Ticket) (v : Z)
    (ti d : string) (s : Status) :
  NoDup (ids ts) → ts !! k = Some t →
  rateTicket (Ticket.id t) v ts = <[k := rated v t]> ts
  ∧ editTicket (Ticket.id t) ti d s ts = <[k := edited ti d s t]> ts.
Proof.
  intros Hnd Hk. split.
  - by apply (fmap_by_id_row (rated v)).
  - by apply (fmap_by_id_row (edited ti d s)).
Qed.

Lemma update_one_row_witness :
  NoDup (ids seed)
  ∧ rateTicket "3" 1 seed
    = <[2%nat := Ticket.mk "3" "UI Feedback" "Improve dashboard layout."
                   Completed (Some 1)]> seed.
Proof.
  assert (H : NoDup (ids seed))
    by (apply (bool_decide_unpack _); vm_compute; exact I).
  split; [exact H|].
  exact (proj1 (update_one_row seed 2
                  (Ticket.mk "3" "UI Feedback" "Improve dashboard layout."
                     Completed (Some 4)) 1 "" "" Created H eq_refl)).
Defined.

(** X12. Repeating an operation on one id: a second deletion changes
    nothing, of two ratings the later one stands, and of two edits the
    later one stands when it does not lead back to Completed from another
    status. *)
Theorem repeated_by_id (ts : list Ticket) (i : string) (v w : Z)
    (ti d ti' d' : string) (s s' : Status) :
  removeTicket i (removeTicket i ts) = removeTicket i ts
  ∧ rateTicket i v (rateTicket i w ts) = rateTicket i v ts
  ∧ (s = Completed ∨ s' ≠ Completed →
       editTicket i ti' d' s' (editTicket i ti d s ts)
       = editTicket i ti' d' s' ts).
Proof.
  split; [|split].
  - apply removeTicket_no_match. intros Hin.
    apply list_elem_of_fmap in Hin as (u & Hu & Hin).
    by apply (proj1 (Forall_forall _ _) (removeTicket_clears i ts) u Hin).
  - unfold rateTicket. rewrite <- list_fmap_compose.
    apply list_fmap_ext. intros _ t _. simpl.
    destruct (decide (Ticket.id t = i)) as [He|Hne].
    + simpl. by rewrite decide_True.
    + by rewrite decide_False.
  - intros Hs. unfold editTicket. rewrite <- list_fmap_compose.
    apply list_fmap_ext. intros _ t _. simpl.
    destruct (decide (Ticket.id t = i)) as [He|Hne].
    + simpl. rewrite decide_True by done. unfold edited. simpl. f_equal.
      destruct (decide (s' = Completed)) as [Hc|Hc]; [|done].
      destruct Hs as [-> | Hs]; [done|contradiction].
    + by rewrite decide_False.
Qed.

(** X13. A rating does not survive a detour of the status: after an edit
    to a status other than Completed and a later edit back to Completed,
    every ticket with the id is Completed without a rating, whatever its
    rating was before. *)
Theorem rating_lost_on_detour (ts : list Ticket) (i : string)
    (ti d ti' d' : string) (s : Status) (k : nat) (t : Ticket) :
  ts !! k = Some t → Ticket.id t = i → s ≠ Completed →
  editTicket i ti' d' Completed (editTicket i ti d s ts) !! k
  = Some (Ticket.mk i ti' d' Completed None).
Proof.
  intros Hk Hid Hs.
  rewrite (editTicket_hit i ti' d' Completed _ k (edited ti d s t)).
  - unfold edited. simpl. rewrite Hid. by rewrite (decide_False (P := s = _)).
  - by apply editTicket_hit.
  - done.
Qed.

Lemma rating_lost_on_detour_witness :
  editTicket "3" "UI Feedback" "Improve dashboard layout." Completed
    (editTicket "3" "UI Feedback" "Improve dashboard layout." Created seed)
    !! 2%nat
  = Some (Ticket.mk "3" "UI Feedback" "Improve dashboard layout." Completed
            None).
Proof.
  apply (rating_lost_on_detour seed "3" _ _ _ _ Created 2
           (Ticket.mk "3" "UI Feedback" "Improve dashboard layout." Completed
              (Some 4)) eq_refl eq_refl).
  discriminate.
Defined.

(** X14. Operations on different ids can be done in either order, and a
    deletion can change places with any rating, edit or other deletion,
    whatever the ids. *)
Theorem by_id_commute (ts : list Ticket) (i j : string) (v w : Z)
    (ti d ti' d' : string) (s s' : Status) :
  removeTicket i (removeTicket j ts) = removeTicket j (removeTicket i ts)
  ∧ removeTicket i (rateTicket j w ts) = rateTicket j w (removeTicket i ts)
  ∧ removeTicket i (editTicket j ti d s ts)
    = editTicket j ti d s (removeTicket i ts)
  ∧ (i ≠ j →
       rateTicket i v (rateTicket j w ts) = rateTicket j w (rateTicket i v ts)
       ∧ rateTicket i v (editTicket j ti d s ts)
         = editTicket j ti d s (rateTicket i v ts)
       ∧ editTicket i ti' d' s' (editTicket j ti d s ts)
         = editTicket j ti d s (editTicket i ti' d' s' ts)).
Proof.
  split; [|split; [|split]].
  - unfold removeTicket. induction ts as [|t ts IH]; [done|].
    rewrite !filter_cons.
    destruct (decide (Ticket.id t ≠ j)), (decide (Ticket.id t ≠ i));
      rewrite ?filter_cons, ?decide_True, ?decide_False by done;
      by rewrite IH.
  - unfold rateTicket. apply removeTicket_fmap. intros t. apply id_rated_or_not.
  - unfold editTicket. apply removeTicket_fmap. intros t. apply id_edited_or_not.
  - intros Hij. unfold rateTicket, editTicket.
    rewrite <- !list_fmap_compose.
    split; [|split]; apply list_fmap_ext; intros _ t _; simpl;
      destruct (decide (Ticket.id t = j)) as [Hj|Hj],
               (decide (Ticket.id t = i)) as [Hi|Hi];
      unfold rated, edited; simpl;
      repeat (destruct (decide (Ticket.id t = _)); simpl);
      congruence.
Qed.

Lemma by_id_commute_witness :
  rateTicket "1" 5 (editTicket "3" "X" "Y" Created seed)
  = editTicket "3" "X" "Y" Created (rateTicket "1" 5 seed).
Proof.
  destruct (by_id_commute seed "1" "3" 5 0 "X" "Y" "" "" Created Created)
    as (_ & _ & _ & H).
  refine (proj1 (proj2 (H _))). discriminate.
Defined.

(** X15. Deleting the ticket a creation has just added, by the id it was
    given, gives back the list as it was before the creation, provided no
    ticket of the list had that id already. *)
Theorem create_then_delete (ts : list Ticket) (now : Z) (ti d : string)
    (s : Status) :
  (toString now ∉ ids ts) →
  removeTicket (toString now) (addTicket now ti d s ts) = ts.
Proof.
  intros Hf. unfold addTicket, removeTicket.
  rewrite filter_app, filter_cons_False by (intros H; by apply H).
  rewrite filter_nil, app_nil_r. by apply removeTicket_no_match.
Qed.

Lemma create_then_delete_witness :
  (toString 1700000000000 ∉ ids seed)
  ∧ removeTicket "1700000000000" (addTicket 1700000000000 "A" "B" Created seed)
    = seed.
Proof.
  assert (H : toString 1700000000000 ∉ ids seed)
    by (apply (bool_decide_unpack _); vm_compute; exact I).
  split; [exact H|].
  exact (create_then_delete seed 1700000000000 "A" "B" Created H).
Defined.

(** X16. The id printed for a clock reading determines the reading: two
    readings print the same id exactly when they are equal, and no
    reading prints the empty string. *)
Theorem print_of_reading (n n' : Z) :
  (toString n = toString n' ↔ n = n')
  ∧ String.length (toString n) ≠ 0%nat.
Proof.
  split.
  - split; [apply toString_inj|by intros ->].
  - pose proof (toString_nonempty n) as H. by destruct (toString n).
Qed.

(** X17. No operation invents an id: after any sequence of operations
    from the seed, the id of every ticket is "1", "2" or "3" or the print
    of the clock reading of one of the creations. *)
Theorem ids_provenance (ops : list Op) (k : nat) (t : Ticket) :
  run ops seed !! k = Some t →
  Ticket.id t ∈ ["1"; "2"; "3"]
  ∨ ∃ n, n ∈ clocks ops ∧ Ticket.id t = toString n.
Proof.
  intros Hk.
  assert (Hin : Ticket.id t ∈ ids (run ops seed)).
  { apply list_elem_of_fmap. exists t. split; [done|].
    apply list_elem_of_lookup. by exists k. }
  apply ids_run in Hin as [Hin|Hin]; [by left|right].
  apply list_elem_of_fmap in Hin as (n & Hn & Hin). by exists n.
Qed.

Lemma ids_provenance_witness :
  let ops := [Delete "1"; Create 1700000000000 "A" "B" Created] in
  run ops seed !! 2%nat = Some (newTicket 1700000000000 "A" "B" Created)
  ∧ (toString 1700000000000 ∈ ["1"; "2"; "3"]
     ∨ ∃ n, n ∈ clocks ops ∧ toString 1700000000000 = toString n).
Proof.
  intros ops. split; [reflexivity|].
  exact (ids_provenance ops 2 (newTicket 1700000000000 "A" "B" Created) eq_refl).
Defined.

(** X18. The list grows by creations only: after any sequence of
    operations it has at most as many tickets as it had plus the number
    of creations in the sequence. *)
Theorem length_bound (ops : list Op) (ts : list Ticket) :
  (length (run ops ts) ≤ length ts + length (clocks ops))%nat.
Proof.
  revert ts. induction ops as [|o ops IH]; intros ts; [simpl; lia|].
  change (run (o :: ops) ts) with (run ops (apply o ts)).
  change (clocks (o :: ops)) with (clock o ++ clocks ops).
  rewrite length_app. pose proof (IH (apply o ts)).
  pose proof (length_apply o ts). lia.
Qed.

(** * Further properties of the screen *)

Section Flows.
Import App.
Implicit Types (a : State) (e : Z * Press) (es : list (Z * Press)).

Lemma op_of_none a e : View.reaches_tickets e.2 = false → op_of a e = None.
Proof.
  destruct e as [now p]. unfold op_of.
  destruct p as [row|row|row n| | | | | |]; simpl; try discriminate; intros _;
    try (by destruct (modalVisible a)).
  by destruct (tickets a !! row).
Qed.

(** The state after the edit form was opened on row [row], filled in and
    saved. *)
Lemma edit_flow_tickets a row item n0 n1 n2 n3 now ti d s :
  tickets a !! row = Some item → Ticket.id item ≠ "" →
  tickets (play [ (n0, PressEdit row); (n1, ChangeTitle ti);
                  (n2, ChangeDescription d); (n3, PickStatus s);
                  (now, PressSave) ] a)
  = editTicket (Ticket.id item) ti d s (tickets a).
Proof.
  intros Hrow Hne. unfold play. simpl. unfold step at 5. simpl.
  rewrite Hrow. simpl. unfold step. simpl.
  by apply String.eqb_neq in Hne as ->.
Qed.

Lemma edited_same t :
  rating_ok t →
  edited (Ticket.title t) (Ticket.description t) (Ticket.status t) t = t.
Proof.
  intros Hok. destruct t as [i ti d s r]. unfold edited. simpl. f_equal.
  case_decide as Hs; [done|]. destruct r as [v|]; [|done].
  exfalso. apply Hs. apply Hok. by eexists.
Qed.

End Flows.

(** X3. What is typed or picked in the form is not in the list until it
    is saved: a run of touches without Save, a trash icon or a star
    (opening and closing the form, typing, picking a status) leaves the
    tickets as they were. *)
Theorem form_touches_keep_tickets (es : list (Z * App.Press)) (a : App.State) :
  Forall (fun e => View.reaches_tickets e.2 = false) es →
  App.tickets (App.play es a) = App.tickets a.
Proof.
  intros H. revert a. induction H as [|e es He Hes IH]; intros a; [done|].
  change (App.play (e :: es) a) with (App.play es (App.step a e)).
  rewrite IH, tickets_step. by rewrite op_of_none.
Qed.

Lemma form_touches_keep_tickets_witness :
  App.tickets
    (App.play [ (1, App.PressEdit 0); (2, App.ChangeTitle "X");
                (3, App.PickStatus Completed); (4, App.PressCancel);
                (5, App.PressAdd); (6, App.ChangeDescription "Y") ]
       App.initial)
  = seed.
Proof.
  apply (form_touches_keep_tickets _ App.initial).
  repeat constructor.
Defined.

(** X4. Adding a ticket through the form: from any state, the touches
    Add, a title, a description, a status and Save leave the old tickets
    followed by one ticket with the typed title and description, the
    picked status, the print of the clock reading at the Save as id and no
    rating, with the form closed. *)
Theorem add_flow (a : App.State) (n0 n1 n2 n3 now : Z) (ti d : string)
    (s : Status) :
  App.play [ (n0, App.PressAdd); (n1, App.ChangeTitle ti);
             (n2, App.ChangeDescription d); (n3, App.PickStatus s);
             (now, App.PressSave) ] a
  = App.mk (App.tickets a ++ [Ticket.mk (toString now) ti d s None]) false
      false None ti d s.
Proof. reflexivity. Qed.

(** X5. Editing a ticket through the form: when row [row] holds a ticket
    with a non-empty id, the touches pencil, a title, a description, a
    status and Save rewrite the tickets with that id; with pairwise
    different ids the result is the list with row [row] replaced by the
    ticket with the typed fields, which keeps its rating only when the
    picked status is Completed. *)
Theorem edit_flow (a : App.State) (row : nat) (item : Ticket)
    (n0 n1 n2 n3 now : Z) (ti d : string) (s : Status) :
  App.tickets a !! row = Some item → Ticket.id item ≠ "" →
  NoDup (ids (App.tickets a)) →
  App.tickets
    (App.play [ (n0, App.PressEdit row); (n1, App.ChangeTitle ti);
                (n2, App.ChangeDescription d); (n3, App.PickStatus s);
                (now, App.PressSave) ] a)
  = <[row := Ticket.mk (Ticket.id item) ti d s
               (if decide (s = Completed) then Ticket.rating item else None)]>
      (App.tickets a).
Proof.
  intros Hrow Hne Hnd.
  rewrite (edit_flow_tickets a row item n0 n1 n2 n3 now ti d s Hrow Hne).
  exact (fmap_by_id_row (edited ti d s) (App.tickets a) row item Hnd Hrow).
Qed.

Lemma edit_flow_witness :
  App.tickets
    (App.play [ (1, App.PressEdit 2); (2, App.ChangeTitle "X");
                (3, App.ChangeDescription "Y"); (4, App.PickStatus Created);
                (5, App.PressSave) ] App.initial)
  = [ Ticket.mk "1" "Login Issue" "User cannot log in with email." Created None;
      Ticket.mk "2" "Payment Bug" "Stripe integration failing on iOS."
        UnderAssistance None;
      Ticket.mk "3" "X" "Y" Created None ].
Proof.
  apply (edit_flow App.initial 2
           (Ticket.mk "3" "UI Feedback" "Improve dashboard layout." Completed
              (Some 4)) 1 2 3 4 5 "X" "Y" Created eq_refl).
  - discriminate.
  - apply (bool_decide_unpack _). vm_compute. exact I.
Defined.

(** X6. Opening the edit form on a row and saving without a change
    leaves the list as it was, when ids are pairwise different, the id of
    the row is not empty and the row has no rating outside Completed. *)
Theorem edit_without_change (a : App.State) (row : nat) (item : Ticket)
    (n0 now : Z) :
  App.tickets a !! row = Some item → Ticket.id item ≠ "" →
  NoDup (ids (App.tickets a)) → rating_ok item →
  App.tickets (App.play [(n0, App.PressEdit row); (now, App.PressSave)] a)
  = App.tickets a.
Proof.
  intros Hrow Hne Hnd Hok. unfold App.play. simpl. unfold App.step at 2. simpl.
  rewrite Hrow. simpl. unfold App.step. simpl.
  apply String.eqb_neq in Hne as ->. simpl.
  unfold editTicket. rewrite (fmap_by_id_row _ _ row item Hnd Hrow).
  rewrite edited_same by done. by apply list_insert_id.
Qed.

Lemma edit_without_change_witness :
  App.tickets (App.play [(1, App.PressEdit 2); (2, App.PressSave)] App.initial)
  = seed.
Proof.
  apply (edit_without_change App.initial 2
           (Ticket.mk "3" "UI Feedback" "Improve dashboard layout." Completed
              (Some 4)) 1 2 eq_refl).
  - discriminate.
  - apply (bool_decide_unpack _). vm_compute. exact I.
  - intros _. reflexivity.
Defined.

(** X7. The empty string as id is the one case where Save in an edit does
    not edit: [currentId] is then falsy, the test [isEditing && currentId]
    fails, and the save appends a ticket with the fields of the form
    under a new id, leaving the row it was opened on as it was. *)
Theorem edit_of_empty_id_appends (a : App.State) (row : nat) (item : Ticket)
    (n0 now : Z) :
  App.tickets a !! row = Some item → Ticket.id item = "" →
  App.tickets (App.play [(n0, App.PressEdit row); (now, App.PressSave)] a)
  = App.tickets a
    ++ [Ticket.mk (toString now) (Ticket.title item) (Ticket.description item)
          (Ticket.status item) None].
Proof.
  intros Hrow He. unfold App.play. simpl. unfold App.step at 2. simpl.
  rewrite Hrow. simpl. unfold App.step. simpl. by rewrite He.
Qed.

Lemma edit_of_empty_id_appends_witness :
  let a := App.mk [Ticket.mk "" "T" "D" Completed (Some 2)] false false None
             "" "" Created in
  App.tickets (App.play [(1, App.PressEdit 0); (2, App.PressSave)] a)
  = [Ticket.mk "" "T" "D" Completed (Some 2); Ticket.mk "2" "T" "D" Completed None].
Proof.
  intros a.
  exact (edit_of_empty_id_appends a 0 (Ticket.mk "" "T" "D" Completed (Some 2))
           1 2 eq_refl eq_refl).
Defined.

(** X10. Touching the star at place [n] (counted from 0) of a Completed
    row stores the rating [n + 1] on that row, and the row then shows
    [n + 1] full stars followed by outlines. *)
Theorem star_round_trip (a : App.State) (row n : nat) (item : Ticket)
    (now : Z) :
  App.tickets a !! row = Some item → Ticket.status item = Completed →
  (n < 5)%nat →
  ∃ item', App.tickets (App.step a (now, App.PressStar row n)) !! row
           = Some item'
    ∧ Ticket.rating item' = Some (Z.of_nat n + 1)
    ∧ View.rowStars (View.TicketItem item')
      = Some (replicate (S n) "star" ++ replicate (4 - n) "star-outline").
Proof.
  intros Hrow Hst Hn.
  exists (rated (Z.of_nat n + 1) item).
  assert (Hstar : App.stars !! n = Some (Z.of_nat n + 1)).
  { do 5 (destruct n as [|n]; [reflexivity|]). lia. }
  split; [|split].
  - unfold App.step. simpl. rewrite Hrow. simpl.
    rewrite decide_True by done. rewrite Hstar. simpl.
    by apply rateTicket_hit.
  - done.
  - unfold View.TicketItem. simpl. rewrite decide_True by done.
    do 5 (destruct n as [|n]; [reflexivity|]). lia.
Qed.

Lemma star_round_trip_witness :
  ∃ item', App.tickets (App.step App.initial (7, App.PressStar 2 1)) !! 2%nat
           = Some item'
    ∧ Ticket.rating item' = Some 2
    ∧ View.rowStars (View.TicketItem item')
      = Some ["star"; "star"; "star-outline"; "star-outline"; "star-outline"].
Proof.
  apply (star_round_trip App.initial 2 1
           (Ticket.mk "3" "UI Feedback" "Improve dashboard layout." Completed
              (Some 4)) 7 eq_refl eq_refl).
  lia.
Defined.

(** X11. The stars drawn for a rating: a missing rating counts as 0, and
    a rating [r] fills the first [r] stars, none when [r] is 0 or
    negative and all five when [r] is 5 or more. *)
Theorem rating_display (rating : option Z) :
  let r := default 0 rating in
  let k := Z.to_nat (Z.min 5 (Z.max 0 r)) in
  View.Rating (View.ratingOrZero rating)
  = replicate k "star" ++ replicate (5 - k) "star-outline".
Proof.
  assert (Hz : View.ratingOrZero rating = default 0 rating).
  { destruct rating as [v|]; simpl; [|done]. by case_decide. }
  rewrite Hz. generalize (default 0 rating). clear. intros r. simpl.
  unfold View.Rating, App.stars. simpl.
  destruct (decide (r ≤ 0)) as [H0|H0].
  { replace (Z.to_nat (Z.min 5 (Z.max 0 r))) with 0%nat by lia.
    repeat case_decide; (lia || reflexivity). }
  destruct (decide (5 ≤ r)) as [H5|H5].
  { replace (Z.to_nat (Z.min 5 (Z.max 0 r))) with 5%nat by lia.
    repeat case_decide; (lia || reflexivity). }
  assert (Hr : r = 1 ∨ r = 2 ∨ r = 3 ∨ r = 4) by lia.
  destruct Hr as [-> | [-> | [-> | ->]]]; reflexivity.
Qed.

(** X22. On the screen the trash icon and the stars of a row act on
    that row only: in a state reached from the initial one by touches
    whose creations read pairwise different clock values (none of them
    1, 2 or 3), the trash icon of row [row] removes that row and keeps
    the others in their order, and a star of a Completed row [row]
    changes the rating of that row and no other ticket. *)
Theorem row_touches_are_local (es : list (Z * App.Press)) (row n : nat)
    (item : Ticket) (now : Z) :
  NoDup (clocks (App.ops_of es App.initial)) →
  Forall (fun m => m ∉ [1; 2; 3]) (clocks (App.ops_of es App.initial)) →
  App.tickets (App.play es App.initial) !! row = Some item →
  let a := App.play es App.initial in
  App.tickets (App.step a (now, App.PressDelete row))
  = take row (App.tickets a) ++ drop (S row) (App.tickets a)
  ∧ (Ticket.status item = Completed → (n < 5)%nat →
       App.tickets (App.step a (now, App.PressStar row n))
       = <[row := Ticket.mk (Ticket.id item) (Ticket.title item)
                    (Ticket.description item) Completed
                    (Some (Z.of_nat n + 1))]> (App.tickets a)).
Proof.
  intros Hc Hs Hrow a.
  assert (Hnd : NoDup (ids (App.tickets a))).
  { unfold a. rewrite tickets_play. by apply NoDup_ids_run. }
  fold a in Hrow. split.
  - unfold App.step. simpl. rewrite Hrow. simpl.
    by apply removeTicket_row.
  - intros Hst Hn. unfold App.step. simpl. rewrite Hrow. simpl.
    rewrite decide_True by done.
    assert (Hstar : App.stars !! n = Some (Z.of_nat n + 1)).
    { do 5 (destruct n as [|n]; [reflexivity|]). lia. }
    rewrite Hstar. simpl. unfold rateTicket.
    rewrite (fmap_by_id_row _ _ row item Hnd Hrow).
    unfold rated. by rewrite Hst.
Qed.

Lemma row_touches_are_local_witness :
  let es := [ (10, App.PressAdd); (11, App.ChangeTitle "A");
              (12, App.PickStatus Completed); (13, App.PressSave) ] in
  ids (App.tickets (App.step (App.play es App.initial) (14, App.PressDelete 1)))
  = ["1"; "3"; "13"]
  ∧ (Ticket.rating
       <$> App.tickets (App.step (App.play es App.initial)
                          (15, App.PressStar 3 2)))
    = [None; None; Some 4; Some 3].
Proof.
  intros es.
  assert (H1 : NoDup (clocks (App.ops_of es App.initial)))
    by (apply (bool_decide_unpack _); vm_compute; exact I).
  assert (H2 : Forall (fun m => m ∉ [1; 2; 3])
                 (clocks (App.ops_of es App.initial)))
    by (apply (bool_decide_unpack _); vm_compute; exact I).
  split.
  - rewrite (proj1 (row_touches_are_local es 1 0
                      (Ticket.mk "2" "Payment Bug"
                         "Stripe integration failing on iOS." UnderAssistance
                         None) 14 H1 H2 eq_refl)).
    reflexivity.
  - reflexivity.
Defined.

(** * Further properties of the counter *)

Section CounterRuns.
Import Counter.

Lemma press_tally c b : Z.abs c < 2 ^ 53 → press c b = tally c b.
Proof.
  intros H. destruct b; simpl; [|  |done].
  - apply increment_exact. lia.
  - apply decrement_exact. lia.
Qed.

Lemma play_tally bs : ∀ c,
  Z.abs c + Z.of_nat (length bs) ≤ 2 ^ 53 → play bs c = foldl tally c bs.
Proof.
  induction bs as [|b bs IH]; intros c Hc; [done|].
  change (play (b :: bs) c) with (play bs (press c b)).
  change (length (b :: bs)) with (S (length bs)) in Hc.
  rewrite Nat2Z.inj_succ in Hc.
  rewrite press_tally by lia. simpl. apply IH.
  destruct b; simpl; lia.
Qed.

End CounterRuns.

(** X19. For up to 2^53 presses from the start, the counter shows what a
    counter on unbounded integers shows: each [+] adds 1, each [-]
    subtracts 1, Reset gives 0. *)
Theorem counter_matches_tally (bs : list Counter.Button) :
  Z.of_nat (length bs) ≤ 2 ^ 53 →
  Counter.play bs Counter.initial = foldl tally 0 bs.
Proof. intros H. apply play_tally. simpl. lia. Qed.

Lemma counter_matches_tally_witness :
  Counter.play [ Counter.Minus; Counter.Minus; Counter.Plus; Counter.Reset;
                 Counter.Plus; Counter.Plus; Counter.Plus; Counter.Minus ]
    Counter.initial
  = 2.
Proof.
  apply (counter_matches_tally
           [ Counter.Minus; Counter.Minus; Counter.Plus; Counter.Reset;
             Counter.Plus; Counter.Plus; Counter.Plus; Counter.Minus ]).
  vm_compute. discriminate.
Defined.

(** X20. Whatever is pressed, the count stays between -2^53 and 2^53. *)
Theorem counter_bounded (bs : list Counter.Button) :
  - 2 ^ 53 ≤ Counter.play bs Counter.initial ≤ 2 ^ 53.
Proof.
  pose proof (play_bounded bs Counter.initial) as H.
  assert (H0 : Z.abs Counter.initial ≤ 2 ^ 53) by (by vm_compute).
  specialize (H H0). lia.
Qed.

(** X21. On a count of magnitude below 2^53, [+] and [-] undo each
    other. *)
Theorem counter_inverse (count : Z) :
  Z.abs count < 2 ^ 53 →
  Counter.decrement (Counter.increment count) = count
  ∧ Counter.increment (Counter.decrement count) = count.
Proof.
  intros H. split.
  - rewrite increment_exact, decrement_exact by lia. lia.
  - rewrite decrement_exact, increment_exact by lia. lia.
Qed.

Lemma counter_inverse_witness :
  Counter.decrement (Counter.increment 0) = 0
  ∧ Counter.increment (Counter.decrement 0) = 0.
Proof.
  apply (counter_inverse 0). vm_compute. reflexivity.
Defined.
